(** * FlowAgent Studio: the flow execution engine of [src/App.tsx]

    A shallow embedding of the React component's state and of the
    handlers that mutate it ([addNode], [deleteNode], [updateNodeData],
    [handleStartConnection], [handleEndConnection], [getRootNodes],
    [runFlow] with its inner [processQueue], [handleReset]), followed by
    the properties of the engine.

    Modelling conventions.
    - The component state is the record [App]; a React state setter
      [setX(f)] is the pure update [f] applied to the store, in program
      order.  A handler reads the same store it was created from.
    - [Date.now()] is an argument [now : N] of the handlers that read it.
    - [generateAgentResponse] is an external call.  It is a parameter
      [Client]: for the call issued in slot [slot] of level [level] it
      gives what the promise settles to and a latency; inside a level the
      promises settle in order of latency (issue order breaks ties), so
      every completion order is obtained from some client.
    - [processQueue] recurses once per level and need not terminate; it
      takes a [fuel] bounding the number of levels and reports in
      [finished] whether the run reached its end. *)

From Stdlib Require Import List String Ascii Bool Arith ZArith NArith Lia.
From Stdlib Require Import Permutation ListDec DecimalString DecimalN.
Import ListNotations.
Open Scope string_scope.
Open Scope list_scope.

(** ** Data model *)

(** Modelled from the spec: the type declarations of [./types]
    ([NodeStatus], [Position], [AgentNode], [Connection],
    [ConnectionState]), which [App.tsx] imports and which are not among
    the sources.  The status is the spec's [idle | running | completed |
    error]; the fields are those that [App.tsx] and [AgentNodeCard.tsx]
    read and write, under the names they use there ([systemInstruction],
    [input], [output] for the spec's persona instruction, last input and
    last output).  [errorMessage] is optional: [runFlow] sets it to
    [undefined]. *)
Inductive NodeStatus : Type := idle | running | completed | error.

Record Position : Type := { pos_x : Z; pos_y : Z }.

Record NodeData : Type := {
  label : string;
  systemInstruction : string;
  input : string;
  output : string;
  status : NodeStatus;
  errorMessage : option string
}.

Record AgentNode : Type := {
  id : string;
  position : Position;
  data : NodeData
}.

Record Connection : Type := {
  conn_id : string;
  source : string;
  target : string
}.

Record ConnectionState : Type := {
  isConnecting : bool;
  sourceNodeId : option string;
  mousePos : Position
}.

(** The state hooks of [App] that the handlers below read or write. *)
Record App : Type := {
  nodes : list AgentNode;
  connections : list Connection;
  globalInput : string;
  connectionState : ConnectionState;
  isRunning : bool
}.

Definition setNodes (f : list AgentNode -> list AgentNode) (st : App) : App :=
  {| nodes := f (nodes st); connections := connections st;
     globalInput := globalInput st; connectionState := connectionState st;
     isRunning := isRunning st |}.

Definition setConnections (f : list Connection -> list Connection) (st : App) : App :=
  {| nodes := nodes st; connections := f (connections st);
     globalInput := globalInput st; connectionState := connectionState st;
     isRunning := isRunning st |}.

Definition setConnectionState (cs : ConnectionState) (st : App) : App :=
  {| nodes := nodes st; connections := connections st;
     globalInput := globalInput st; connectionState := cs;
     isRunning := isRunning st |}.

Definition setIsRunning (b : bool) (st : App) : App :=
  {| nodes := nodes st; connections := connections st;
     globalInput := globalInput st; connectionState := connectionState st;
     isRunning := b |}.

(** [`${n}`] for a non-negative integer [n]. *)
Definition decimal (n : N) : string := NilZero.string_of_uint (N.to_uint n).

Definition INITIAL_NODE : AgentNode :=
  {| id := "node-1";
     position := {| pos_x := 100; pos_y := 150 |};
     data := {| label := "Start Agent";
                systemInstruction :=
                  "You are a creative writer. Receive a topic and write a short haiku about it.";
                input := ""; output := ""; status := idle;
                errorMessage := None |} |}.

Definition noConnection : ConnectionState :=
  {| isConnecting := false; sourceNodeId := None;
     mousePos := {| pos_x := 0; pos_y := 0 |} |}.

Definition initialApp : App :=
  {| nodes := [INITIAL_NODE]; connections := [];
     globalInput := "Artificial Intelligence";
     connectionState := noConnection; isRunning := false |}.

(** ** Graph Store actions *)

Definition nodeIdOf (now : N) : string := ("node-" ++ decimal now)%string.

Definition addNode (now : N) (st : App) : App :=
  let k := Z.of_nat (List.length (nodes st)) in
  let newNode :=
    {| id := nodeIdOf now;
       position := {| pos_x := 200 + k * 20; pos_y := 200 + k * 20 |};
       data := {| label := ("Agent " ++ decimal (N.of_nat (List.length (nodes st) + 1)))%string;
                  systemInstruction := ""; input := ""; output := "";
                  status := idle; errorMessage := None |} |} in
  setNodes (fun prev => prev ++ [newNode]) st.

Definition deleteNode (i : string) (st : App) : App :=
  setConnections
    (filter (fun c => negb (source c =? i) && negb (target c =? i)))
    (setNodes (filter (fun n => negb (id n =? i))) st).

(** [Partial<AgentNode['data']>]: a field is either absent or carries the
    value that replaces the node's. *)
Record PartialData : Type := {
  p_label : option string;
  p_systemInstruction : option string;
  p_input : option string;
  p_output : option string;
  p_status : option NodeStatus;
  p_errorMessage : option (option string)
}.

Definition orElse {A : Type} (o : option A) (d : A) : A :=
  match o with Some a => a | None => d end.

(** [{ ...d, ...p }] *)
Definition spread (d : NodeData) (p : PartialData) : NodeData :=
  {| label := orElse (p_label p) (label d);
     systemInstruction := orElse (p_systemInstruction p) (systemInstruction d);
     input := orElse (p_input p) (input d);
     output := orElse (p_output p) (output d);
     status := orElse (p_status p) (status d);
     errorMessage := orElse (p_errorMessage p) (errorMessage d) |}.

Definition withData (n : AgentNode) (d : NodeData) : AgentNode :=
  {| id := id n; position := position n; data := d |}.

(** [prev.map(n => n.id === i ? { ...n, data: f(n.data) } : n)] *)
Definition mapNode (i : string) (f : NodeData -> NodeData)
    (prev : list AgentNode) : list AgentNode :=
  map (fun n => if id n =? i then withData n (f (data n)) else n) prev.

Definition updateNodeData (i : string) (p : PartialData) (st : App) : App :=
  setNodes (mapNode i (fun d => spread d p)) st.

(** ** Connection logic *)

Definition handleStartConnection (i : string) (st : App) : App :=
  setConnectionState
    {| isConnecting := true; sourceNodeId := Some i;
       mousePos := {| pos_x := 0; pos_y := 0 |} |} st.

(** A string is truthy unless it is empty. *)
Definition truthy (s : string) : bool := negb (s =? "").

Definition handleEndConnection (targetId : string) (now : N) (st : App) : App :=
  match sourceNodeId (connectionState st) with
  | Some sourceId =>
      if isConnecting (connectionState st) && truthy sourceId then
        if sourceId =? targetId then st
        else
          let exists_ :=
            existsb (fun c => (source c =? sourceId) && (target c =? targetId))
                    (connections st) in
          let st' :=
            if negb exists_ then
              setConnections
                (fun prev => prev ++ [{| conn_id := ("c-" ++ decimal now)%string;
                                         source := sourceId;
                                         target := targetId |}]) st
            else st in
          setConnectionState noConnection st'
      else setConnectionState noConnection st
  | None => setConnectionState noConnection st
  end.

(** The collaborator's [addConnection(a, b)]: the drag from [a]'s output
    handle released on [b]'s input handle. *)
Definition addConnection (a b : string) (now : N) (st : App) : App :=
  handleEndConnection b now (handleStartConnection a st).

(** ** Execution logic *)

Definition getRootNodes (st : App) : list AgentNode :=
  let targets := map target (connections st) in
  filter (fun n => negb (existsb (String.eqb (id n)) targets)) (nodes st).

(** What a [generateAgentResponse] promise settles to. *)
Inductive Outcome : Type :=
| Fulfilled (text : string)
| Failed (message : string).

Record Reply : Type := { latency : nat; outcome : Outcome }.

(** [client level slot input systemInstruction] *)
Definition Client : Type := nat -> nat -> string -> string -> Reply.

Record QueueItem : Type := { nodeId : string; q_input : string }.

(** One call of [generateAgentResponse], with the reply it gets. *)
Record Invocation : Type := {
  inv_slot : nat;
  inv_node : string;
  inv_input : string;
  inv_instruction : string;
  inv_reply : Reply
}.

Definition markRunning (i : string) (d : NodeData) : NodeData :=
  {| label := label d; systemInstruction := systemInstruction d;
     input := i; output := output d; status := running;
     errorMessage := errorMessage d |}.

Definition markCompleted (o : string) (d : NodeData) : NodeData :=
  {| label := label d; systemInstruction := systemInstruction d;
     input := input d; output := o; status := completed;
     errorMessage := errorMessage d |}.

Definition markError (m : string) (d : NodeData) : NodeData :=
  {| label := label d; systemInstruction := systemInstruction d;
     input := input d; output := output d; status := error;
     errorMessage := Some m |}.

Definition resetStatus (d : NodeData) : NodeData :=
  {| label := label d; systemInstruction := systemInstruction d;
     input := input d; output := output d; status := idle;
     errorMessage := None |}.

Section Engine.

Variable generateAgentResponse : Client.

(** The part of each task of [currentQueue.map(async ...)] that runs
    before its [await]: the tasks run it one after the other, in queue
    order.  A task whose node is not found returns without a call. *)
Fixpoint launch (level slot : nat) (prev : list AgentNode)
    (currentQueue : list QueueItem) : list AgentNode * list Invocation :=
  match currentQueue with
  | [] => (prev, [])
  | item :: rest =>
      match find (fun n => id n =? nodeId item) prev with
      | None => launch level (S slot) prev rest
      | Some currentNode =>
          let systemInstruction := systemInstruction (data currentNode) in
          let call :=
            {| inv_slot := slot; inv_node := nodeId item;
               inv_input := q_input item;
               inv_instruction := systemInstruction;
               inv_reply := generateAgentResponse level slot (q_input item)
                              systemInstruction |} in
          let (prev', calls) :=
            launch level (S slot)
                   (mapNode (nodeId item) (markRunning (q_input item)) prev)
                   rest in
          (prev', call :: calls)
      end
  end.

(** The part of a task after its [await], run when the promise settles. *)
Definition settle (conns : list Connection)
    (acc : list AgentNode * list QueueItem) (call : Invocation)
    : list AgentNode * list QueueItem :=
  let (prev, nextQueue) := acc in
  match outcome (inv_reply call) with
  | Fulfilled out =>
      let outgoingEdges := filter (fun c => source c =? inv_node call) conns in
      (mapNode (inv_node call) (markCompleted out) prev,
       nextQueue ++ map (fun edge => {| nodeId := target edge; q_input := out |})
                        outgoingEdges)
  | Failed message =>
      (mapNode (inv_node call) (markError message) prev, nextQueue)
  end.

(** Completion order of the calls of one level: by latency, the call
    issued first settling first among equal latencies. *)
Fixpoint insertByLatency (c : Invocation) (l : list Invocation)
    : list Invocation :=
  match l with
  | [] => [c]
  | d :: l' =>
      if (latency (inv_reply c) <=? latency (inv_reply d))%nat then c :: l
      else d :: insertByLatency c l'
  end.

Definition settleOrder (calls : list Invocation) : list Invocation :=
  fold_right insertByLatency [] calls.

(** One level: [await Promise.all(currentQueue.map(...))].  Gives the
    node list and [nextQueue] after every task has settled, and the
    calls of the level in the order they were issued. *)
Definition runLevel (conns : list Connection) (level : nat)
    (prev : list AgentNode) (currentQueue : list QueueItem)
    : list AgentNode * list QueueItem * list Invocation :=
  let (started, calls) := launch level 0 prev currentQueue in
  (fold_left (settle conns) (settleOrder calls) (started, []), calls).

(** What a call of [runFlow] did when it stopped being observed:
    the store, the calls of each level, the [alert] shown if any, and
    whether the chain of levels came to its end. *)
Record Run : Type := {
  final : App;
  levels : list (list Invocation);
  alert : option string;
  finished : bool
}.

Fixpoint processQueue (conns : list Connection) (fuel level : nat)
    (st : App) (currentQueue : list QueueItem) : Run :=
  match currentQueue with
  | [] =>
      {| final := setIsRunning false st; levels := []; alert := None;
         finished := true |}
  | _ :: _ =>
      match fuel with
      | O => {| final := st; levels := []; alert := None; finished := false |}
      | S fuel' =>
          let '(prev, nextQueue, calls) :=
            runLevel conns level (nodes st) currentQueue in
          let st' := setNodes (fun _ => prev) st in
          match nextQueue with
          | _ :: _ =>
              let r := processQueue conns fuel' (S level) st' nextQueue in
              {| final := final r; levels := calls :: levels r;
                 alert := alert r; finished := finished r |}
          | [] =>
              {| final := setIsRunning false st'; levels := [calls];
                 alert := None; finished := true |}
          end
      end
  end.

Definition noStartNodeMessage : string :=
  "No start node found (a node with no incoming connections).".

Definition runFlow (fuel : nat) (st : App) : Run :=
  if isRunning st then
    {| final := st; levels := []; alert := None; finished := true |}
  else
    let st1 := setIsRunning true st in
    let st2 :=
      setNodes (map (fun n => withData n (resetStatus (data n)))) st1 in
    let rootNodes := getRootNodes st in
    if (List.length rootNodes =? 0)%nat && (0 <? List.length (nodes st))%nat then
      {| final := setIsRunning false st2; levels := [];
         alert := Some noStartNodeMessage; finished := true |}
    else
      let queue :=
        map (fun n => {| nodeId := id n; q_input := globalInput st |})
            rootNodes in
      processQueue (connections st) fuel 0 st2 queue.

End Engine.

Definition clearIO (d : NodeData) : NodeData :=
  {| label := label d; systemInstruction := systemInstruction d;
     input := ""; output := ""; status := idle;
     errorMessage := errorMessage d |}.

Definition handleReset (st : App) : App :=
  setIsRunning false (setNodes (map (fun n => withData n (clearIO (data n)))) st).

(** ** Small runs *)

Definition mkNode (i persona : string) : AgentNode :=
  {| id := i; position := {| pos_x := 0; pos_y := 0 |};
     data := {| label := i; systemInstruction := persona; input := "";
                output := ""; status := idle; errorMessage := None |} |}.

Definition mkConn (a b : string) : Connection :=
  {| conn_id := ("c-" ++ a ++ b)%string; source := a; target := b |}.

Definition mkApp (ns : list AgentNode) (cs : list Connection) (gi : string) : App :=
  {| nodes := ns; connections := cs; globalInput := gi;
     connectionState := noConnection; isRunning := false |}.

(** A client that answers at once, appending the persona to the input. *)
Definition echoClient : Client :=
  fun _ _ i p => {| latency := 0; outcome := Fulfilled (i ++ p)%string |}.

Definition boomClient : Client :=
  fun _ _ _ _ => {| latency := 0; outcome := Failed "boom" |}.


Definition chainAB : App :=
  mkApp [mkNode "A" "!"; mkNode "B" "?"] [mkConn "A" "B"] "hi".


Definition cycleAB : App :=
  mkApp [mkNode "A" "!"; mkNode "B" "?"] [mkConn "A" "B"; mkConn "B" "A"] "hi".

Definition emptyApp : App := mkApp [] [] "hi".

(** ** Sequences of Graph Store operations *)

Inductive StoreOp : Type :=
| OpAddNode (now : N)
| OpDeleteNode (i : string)
| OpUpdateNodeData (i : string) (p : PartialData)
| OpAddConnection (a b : string) (now : N)
| OpReset
| OpRun (client : Client) (fuel : nat).

Definition applyOp (st : App) (op : StoreOp) : App :=
  match op with
  | OpAddNode now => addNode now st
  | OpDeleteNode i => deleteNode i st
  | OpUpdateNodeData i p => updateNodeData i p st
  | OpAddConnection a b now => addConnection a b now st
  | OpReset => handleReset st
  | OpRun client fuel => final (runFlow client fuel st)
  end.

Definition applyOps (ops : list StoreOp) (st : App) : App :=
  fold_left applyOp ops st.

(** The values [Date.now()] gave to the [addNode] calls of a sequence. *)
Definition clockReadings (ops : list StoreOp) : list N :=
  flat_map (fun op => match op with OpAddNode now => [now] | _ => [] end) ops.

(** Whether / which connections of [l] go from [a] to [b]. *)
Definition between (a b : string) (l : list Connection) : list Connection :=
  filter (fun c => (source c =? a) && (target c =? b)) l.

(** Whether [i] is the id of a node of [prev]. *)
Definition isNode (prev : list AgentNode) (i : string) : bool :=
  existsb (String.eqb i) (map id prev).



Definition linked (a b : string) (l : list Connection) : bool :=
  existsb (fun c => (source c =? a) && (target c =? b)) l.



(** ** The connection graph *)

Definition edge (conns : list Connection) (a b : string) : Prop :=
  exists c, In c conns /\ source c = a /\ target c = b.





(** ** What the setters of a level do to one node *)







(** [a] and [b] sit at two different places of [l]. *)
Definition twice {A : Type} (a b : A) (l : list A) : Prop :=
  exists p m s, l = p ++ a :: m ++ b :: s \/ l = p ++ b :: m ++ a :: s.


(** ** A fan-in with a race *)



(** ** Drag logic and rendering helpers *)

(** Modelled from the spec: [DragState], the other state type [App.tsx]
    imports from [./types]; its three fields are the ones [App.tsx] sets
    and reads.  Mouse and canvas coordinates are whole pixels, like the
    fields of [Position]. *)
Record DragState : Type := {
  isDragging : bool;
  dragNodeId : option string;
  offset : Position
}.

Definition origin : Position := {| pos_x := 0; pos_y := 0 |}.

Definition noDrag : DragState :=
  {| isDragging := false; dragNodeId := None; offset := origin |}.

(** The store together with the drag hook. *)
Record Canvas : Type := { store : App; dragState : DragState }.

Definition onApp (f : App -> App) (cv : Canvas) : Canvas :=
  {| store := f (store cv); dragState := dragState cv |}.

Definition setDragState (d : DragState) (cv : Canvas) : Canvas :=
  {| store := store cv; dragState := d |}.

(** [canvasRect] is [canvasRef.current?.getBoundingClientRect()], its
    [left] and [top]; [clientX], [clientY] are the event's. *)
Definition handleNodeMouseDown (canvasRect : option Position)
    (clientX clientY : Z) (i : string) (cv : Canvas) : Canvas :=
  match find (fun n => id n =? i) (nodes (store cv)) with
  | None => cv
  | Some node =>
      match canvasRect with
      | None => cv
      | Some rect =>
          let mouseX := (clientX - pos_x rect)%Z in
          let mouseY := (clientY - pos_y rect)%Z in
          setDragState
            {| isDragging := true; dragNodeId := Some i;
               offset := {| pos_x := mouseX - pos_x (position node);
                            pos_y := mouseY - pos_y (position node) |} |} cv
      end
  end.

Definition moveNode (i : string) (p : Position) (prev : list AgentNode)
    : list AgentNode :=
  map (fun n => if id n =? i
                then {| id := id n; position := p; data := data n |} else n) prev.

Definition handleCanvasMouseMove (canvasRect : option Position)
    (clientX clientY : Z) (cv : Canvas) : Canvas :=
  match canvasRect with
  | None => cv
  | Some rect =>
      let mouseX := (clientX - pos_x rect)%Z in
      let mouseY := (clientY - pos_y rect)%Z in
      let cv1 :=
        match dragNodeId (dragState cv) with
        | Some dragged =>
            if isDragging (dragState cv) && truthy dragged then
              let newX := (mouseX - pos_x (offset (dragState cv)))%Z in
              let newY := (mouseY - pos_y (offset (dragState cv)))%Z in
              onApp (setNodes (moveNode dragged {| pos_x := newX; pos_y := newY |})) cv
            else cv
        | None => cv
        end in
      if isConnecting (connectionState (store cv)) then
        onApp (fun st =>
                 setConnectionState
                   {| isConnecting := isConnecting (connectionState st);
                      sourceNodeId := sourceNodeId (connectionState st);
                      mousePos := {| pos_x := mouseX; pos_y := mouseY |} |} st)
              cv1
      else cv1
  end.

Definition handleCanvasMouseUp (cv : Canvas) : Canvas :=
  {| store := setConnectionState noConnection (store cv); dragState := noDrag |}.

Definition getNodeCenter (i : string) (st : App) : Position :=
  match find (fun n => id n =? i) (nodes st) with
  | None => origin
  | Some node => {| pos_x := pos_x (position node); pos_y := pos_y (position node) |}
  end.

Definition getInputPos (i : string) (st : App) : Position :=
  match find (fun n => id n =? i) (nodes st) with
  | None => origin
  | Some node => {| pos_x := pos_x (position node);
                    pos_y := pos_y (position node) + 80 |}
  end.

Definition getOutputPos (i : string) (st : App) : Position :=
  match find (fun n => id n =? i) (nodes st) with
  | None => origin
  | Some node => {| pos_x := pos_x (position node) + 320;
                    pos_y := pos_y (position node) + 80 |}
  end.

(** ** What a node card displays ([AgentNodeCard.tsx]) *)

(** An optional string is truthy when it is there and not empty. *)
Definition truthyOpt (o : option string) : bool :=
  match o with Some s => truthy s | None => false end.

(** The block of the last input and output: [(data.input || data.output) && ...]. *)
Definition showsLastRun (d : NodeData) : bool :=
  truthy (input d) || truthy (output d).

(** The error box sits inside that block: [data.errorMessage && ...]. *)
Definition showsError (d : NodeData) : bool :=
  showsLastRun d && truthyOpt (errorMessage d).

(** ** The generation service ([services/geminiService.ts]) *)

(** What [ai.models.generateContent] does: it returns a response whose
    [text] may be undefined, or throws an error whose [message] may be. *)
Inductive SdkResult : Type :=
| Returned (text : option string)
| Threw (message : option string).

(** [o || d] *)
Definition orDefault (o : option string) (d : string) : string :=
  match o with
  | Some s => if truthy s then s else d
  | None => d
  end.

Definition missingKeyMessage : string :=
  "API Key is missing. Please check your environment variables.".

(** [generateContent modelId contents systemInstruction] stands for the SDK
    call; [apiKey] is [process.env.API_KEY || '']. *)
Definition generateAgentResponse (apiKey : string)
    (generateContent : string -> string -> string -> SdkResult)
    (input systemInstruction : string) : Outcome :=
  if negb (truthy apiKey) then Failed missingKeyMessage
  else
    let modelId := "gemini-2.5-flash" in
    match generateContent modelId input systemInstruction with
    | Returned text => Fulfilled (orDefault text "No response generated.")
    | Threw message => Failed (orDefault message "Failed to generate content")
    end.


(** ** More notions used by the properties *)

(** Every connection joins two nodes of the store. *)
Definition wellFormed (st : App) : Prop :=
  forall c, In c (connections st) ->
            In (source c) (map id (nodes st)) /\
            In (target c) (map id (nodes st)).

(** The operations of a sequence that draw a connection draw it between
    nodes that exist when they are applied. *)
Fixpoint drawnBetweenNodes (ops : list StoreOp) (st : App) : Prop :=
  match ops with
  | [] => True
  | op :: rest =>
      match op with
      | OpAddConnection a b _ =>
          In a (map id (nodes st)) /\ In b (map id (nodes st))
      | _ => True
      end /\ drawnBetweenNodes rest (applyOp st op)
  end.

Definition endpoints (c : Connection) : string * string := (source c, target c).

(** No two connections join the same nodes in the same direction, none
    joins a node to itself and none starts from the empty id. *)
Definition simpleConnections (st : App) : Prop :=
  NoDup (map endpoints (connections st)) /\
  forall c, In c (connections st) -> source c <> target c /\ source c <> "".

(** What a run never writes in a node. *)
Definition sameNode (n n' : AgentNode) : Prop :=
  id n' = id n /\ position n' = position n /\
  label (data n') = label (data n) /\
  systemInstruction (data n') = systemInstruction (data n).

(** What a run reads of a node. *)
Definition sameAgent (n m : AgentNode) : Prop :=
  id m = id n /\ systemInstruction (data m) = systemInstruction (data n).

(** What a run writes in every node it calls. *)
Definition sameOutcome (n m : AgentNode) : Prop :=
  id m = id n /\ status (data m) = status (data n) /\
  errorMessage (data m) = errorMessage (data n).

Definition twins (n m : AgentNode) : Prop := sameAgent n m /\ sameOutcome n m.




Definition emptyPartial : PartialData :=
  {| p_label := None; p_systemInstruction := None; p_input := None;
     p_output := None; p_status := None; p_errorMessage := None |}.

Definition orFirst {A : Type} (o1 o2 : option A) : option A :=
  match o1 with Some a => Some a | None => o2 end.

(** [{ ...p1, ...p2 }] *)
Definition mergePartial (p1 p2 : PartialData) : PartialData :=
  {| p_label := orFirst (p_label p2) (p_label p1);
     p_systemInstruction := orFirst (p_systemInstruction p2) (p_systemInstruction p1);
     p_input := orFirst (p_input p2) (p_input p1);
     p_output := orFirst (p_output p2) (p_output p1);
     p_status := orFirst (p_status p2) (p_status p1);
     p_errorMessage := orFirst (p_errorMessage p2) (p_errorMessage p1) |}.


Definition threeNodes : App :=
  mkApp [mkNode "A" "1"; mkNode "B" "2"; mkNode "C" "3"] [] "x".

(** * Properties *)

(** ** Nodes kept by the setters *)

Lemma mapNode_ids i f l : map id (mapNode i f l) = map id l.
Proof.
  unfold mapNode. rewrite map_map. apply map_ext.
  intros n. destruct (id n =? i); reflexivity.
Qed.

Lemma mapNode_length i f l : List.length (mapNode i f l) = List.length l.
Proof. apply length_map. Qed.

Lemma in_mapNode i f l n' :
  In n' (mapNode i f l) ->
  exists n, In n l /\ id n' = id n /\
            ((id n = i /\ n' = withData n (f (data n))) \/ (id n <> i /\ n' = n)).
Proof.
  unfold mapNode. rewrite in_map_iff. intros [n [E Hn]].
  exists n. split; [exact Hn|].
  destruct (String.eqb_spec (id n) i) as [e|ne]; subst n'; simpl; auto.
Qed.

(** ** Root discovery *)

Lemma existsb_eqb_In (s : string) (l : list string) :
  existsb (String.eqb s) l = true <-> In s l.
Proof.
  rewrite existsb_exists. split.
  - intros [t [Ht E]]. apply String.eqb_eq in E. now subst.
  - intros H. exists s. split; [exact H | apply String.eqb_refl].
Qed.

Lemma in_getRootNodes st n :
  In n (getRootNodes st) <->
  In n (nodes st) /\ ~ In (id n) (map target (connections st)).
Proof.
  unfold getRootNodes. rewrite filter_In, negb_true_iff.
  rewrite <- existsb_eqb_In.
  destruct (existsb (String.eqb (id n)) (map target (connections st)));
    intuition congruence.
Qed.

Lemma getRootNodes_none st :
  (forall n, In n (nodes st) ->
             exists c, In c (connections st) /\ target c = id n) ->
  getRootNodes st = [].
Proof.
  intros H. destruct (getRootNodes st) as [|n l] eqn:E; [reflexivity|].
  assert (Hn : In n (getRootNodes st)) by (rewrite E; left; reflexivity).
  apply in_getRootNodes in Hn. destruct Hn as [Hn Hr].
  destruct (H n Hn) as [c [Hc Ht]]. exfalso. apply Hr.
  rewrite <- Ht. now apply in_map.
Qed.

(** ** Runs that invoke nothing *)

(** C1. On a graph with at least one node in which every node is the
    target of some connection, a run started while no run is in progress
    raises the no-start-node alert at once, whatever the fuel: it makes no
    call to the generation client, the store holds the same nodes with
    status [idle], and [isRunning] is false at the end. *)
Theorem runFlow_no_start_node (client : Client) (fuel : nat) (st : App) :
  isRunning st = false ->
  nodes st <> [] ->
  (forall n, In n (nodes st) ->
             exists c, In c (connections st) /\ target c = id n) ->
  let r := runFlow client fuel st in
  alert r = Some noStartNodeMessage /\
  finished r = true /\
  levels r = [] /\
  map id (nodes (final r)) = map id (nodes st) /\
  (forall n, In n (nodes (final r)) -> status (data n) = idle) /\
  isRunning (final r) = false.
Proof.
  intros Hrun Hne Hin. unfold runFlow. rewrite Hrun.
  rewrite (getRootNodes_none st Hin). simpl.
  destruct (nodes st) as [|n0 l] eqn:En; [congruence|]. simpl.
  repeat split.
  - rewrite En. simpl. f_equal. rewrite map_map. reflexivity.
  - rewrite En. intros n Hn. change (withData n0 (resetStatus (data n0))
      :: map (fun n => withData n (resetStatus (data n))) l)
      with (map (fun n => withData n (resetStatus (data n))) (n0 :: l)) in Hn.
    apply in_map_iff in Hn. destruct Hn as [m [E _]]. subst n. reflexivity.
Qed.

Lemma runFlow_no_start_node_witness :
  let r := runFlow echoClient 0 cycleAB in
  alert r = Some noStartNodeMessage /\
  finished r = true /\
  levels r = [] /\
  map id (nodes (final r)) = map id (nodes cycleAB) /\
  (forall n, In n (nodes (final r)) -> status (data n) = idle) /\
  isRunning (final r) = false.
Proof.
  apply (runFlow_no_start_node echoClient 0 cycleAB).
  - reflexivity.
  - discriminate.
  - intros n [E|[E|[]]]; subst n.
    + exists (mkConn "B" "A"). split; [right; left; reflexivity | reflexivity].
    + exists (mkConn "A" "B"). split; [left; reflexivity | reflexivity].
Defined.

(** C8. A call of [runFlow] made while the running flag is set returns at
    once: the store is the one it was given, no level is started and the
    generation client is not called. *)
Theorem runFlow_reentrant_noop (client : Client) (fuel : nat) (st : App) :
  isRunning st = true ->
  let r := runFlow client fuel st in
  final r = st /\ levels r = [] /\ alert r = None /\ finished r = true.
Proof.
  intros H. unfold runFlow. rewrite H. simpl. auto.
Qed.

Lemma runFlow_reentrant_noop_witness :
  let st := setIsRunning true chainAB in
  let r := runFlow echoClient 3 st in
  final r = st /\ levels r = [] /\ alert r = None /\ finished r = true.
Proof.
  apply (runFlow_reentrant_noop echoClient 3 (setIsRunning true chainAB)).
  reflexivity.
Defined.

(** C10. On a graph without nodes, a run started while no run is in
    progress shows no alert and calls the generation client for nothing:
    the first queue is empty, the run is over at once whatever the fuel,
    and [isRunning] is false at the end. *)
Theorem runFlow_empty_graph (client : Client) (fuel : nat) (st : App) :
  isRunning st = false ->
  nodes st = [] ->
  let r := runFlow client fuel st in
  alert r = None /\ levels r = [] /\ finished r = true /\
  nodes (final r) = [] /\ isRunning (final r) = false.
Proof.
  intros Hrun Hn. unfold runFlow, getRootNodes. rewrite Hrun, Hn. simpl.
  destruct fuel; simpl; rewrite Hn; auto.
Qed.

Lemma runFlow_empty_graph_witness :
  let r := runFlow boomClient 0 emptyApp in
  alert r = None /\ levels r = [] /\ finished r = true /\
  nodes (final r) = [] /\ isRunning (final r) = false.
Proof.
  apply (runFlow_empty_graph boomClient 0 emptyApp); reflexivity.
Defined.

(** ** Connections *)

Lemma handleEndConnection_self a now st :
  connections (handleEndConnection a now (handleStartConnection a st))
  = connections st.
Proof.
  unfold handleEndConnection, handleStartConnection. simpl.
  destruct (truthy a); simpl; [|reflexivity].
  rewrite String.eqb_refl. reflexivity.
Qed.

Lemma existsb_between a b l :
  existsb (fun c => (source c =? a) && (target c =? b)) l = true <->
  exists c, In c l /\ source c = a /\ target c = b.
Proof.
  rewrite existsb_exists. split; intros [c [Hc H]]; exists c; split; auto.
  - apply andb_true_iff in H. destruct H as [H1 H2].
    apply String.eqb_eq in H1, H2. auto.
  - destruct H as [H1 H2]. subst. now rewrite !String.eqb_refl.
Qed.

Lemma addConnection_connections a b now st :
  connections (addConnection a b now st) =
  if truthy a && negb (a =? b) && negb (linked a b (connections st))
  then connections st ++ [{| conn_id := ("c-" ++ decimal now)%string;
                             source := a; target := b |}]
  else connections st.
Proof.
  unfold addConnection, handleEndConnection, handleStartConnection, linked.
  simpl. destruct (truthy a); simpl; [|reflexivity].
  destruct (a =? b); simpl; [reflexivity|].
  destruct (existsb _ (connections st)); reflexivity.
Qed.

Lemma linked_snoc a b i l :
  linked a b (l ++ [{| conn_id := i; source := a; target := b |}]) = true.
Proof.
  unfold linked. rewrite existsb_app. simpl.
  rewrite !String.eqb_refl. apply orb_true_r.
Qed.

Lemma between_nil_linked a b l : between a b l = [] -> linked a b l = false.
Proof.
  intros H. destruct (linked a b l) eqn:E; [|reflexivity].
  apply existsb_between in E. destruct E as [c [Hc [H1 H2]]].
  assert (X : In c (between a b l)).
  { apply filter_In. split; [exact Hc|]. subst. now rewrite !String.eqb_refl. }
  rewrite H in X. destruct X.
Qed.

(** C7. [addConnection a a] leaves the connections as they were, and so
    does [addConnection a b] when a connection from [a] to [b] is already
    there; hence a second [addConnection a b] changes nothing after the
    first, and from a store without such a connection two calls with a
    non-empty [a] different from [b] give exactly one.  The handler is a
    total function of the store: a rejected connection is a store left as
    it was, there is no failure to signal. *)
Theorem addConnection_rejects (a b : string) (now now' : N) (st : App) :
  connections (addConnection a a now st) = connections st /\
  ((exists c, In c (connections st) /\ source c = a /\ target c = b) ->
   connections (addConnection a b now st) = connections st) /\
  connections (addConnection a b now' (addConnection a b now st))
  = connections (addConnection a b now st) /\
  (a <> b -> a <> "" -> between a b (connections st) = [] ->
   List.length
     (between a b (connections (addConnection a b now' (addConnection a b now st))))
   = 1).
Proof.
  split; [apply handleEndConnection_self|].
  split.
  { intros Hex. apply existsb_between in Hex. fold (linked a b (connections st)) in Hex.
    rewrite addConnection_connections, Hex, andb_false_r. reflexivity. }
  assert (Second : connections (addConnection a b now' (addConnection a b now st))
                   = connections (addConnection a b now st)).
  { rewrite (addConnection_connections a b now').
    rewrite (addConnection_connections a b now).
    destruct (truthy a); simpl; [|reflexivity].
    destruct (a =? b); simpl; [reflexivity|].
    destruct (linked a b (connections st)) eqn:E; simpl.
    - rewrite E. reflexivity.
    - rewrite linked_snoc. reflexivity. }
  split; [exact Second|].
  intros nab ne Hb. rewrite Second, addConnection_connections.
  rewrite (between_nil_linked _ _ _ Hb). unfold truthy.
  apply String.eqb_neq in nab, ne. rewrite nab, ne. simpl.
  unfold between. rewrite filter_app. fold (between a b (connections st)).
  rewrite Hb. simpl. rewrite !String.eqb_refl. reflexivity.
Qed.

Lemma addConnection_rejects_witness :
  connections (addConnection "A" "A" 7 chainAB) = connections chainAB /\
  connections (addConnection "A" "B" 7 chainAB) = connections chainAB /\
  List.length
    (between "B" "A" (connections (addConnection "B" "A" 8 (addConnection "B" "A" 7 chainAB))))
  = 1.
Proof.
  destruct (addConnection_rejects "A" "B" 7 8 chainAB) as (H1 & H2 & _ & _).
  destruct (addConnection_rejects "B" "A" 7 8 chainAB) as (_ & _ & _ & H4).
  split; [exact H1|]. split.
  - apply H2. exists (mkConn "A" "B"). repeat split. left. reflexivity.
  - apply H4; [discriminate | discriminate | reflexivity].
Defined.

(** ** The engine keeps the node list's shape *)

Section EngineFrame.

Variable client : Client.

Lemma launch_ids level q : forall slot prev,
  map id (fst (launch client level slot prev q)) = map id prev.
Proof.
  induction q as [|item rest IH]; intros slot prev; simpl; [reflexivity|].
  destruct (find _ prev) as [cur|]; [|apply IH].
  specialize (IH (S slot) (mapNode (nodeId item) (markRunning (q_input item)) prev)).
  destruct (launch client level (S slot) _ rest) as [prev' calls]. simpl in *.
  rewrite IH. apply mapNode_ids.
Qed.

Lemma settle_ids conns acc call :
  map id (fst (settle conns acc call)) = map id (fst acc).
Proof.
  unfold settle. destruct acc as [prev nq].
  destruct (outcome (inv_reply call)); simpl; apply mapNode_ids.
Qed.

Lemma settles_ids conns calls : forall acc,
  map id (fst (fold_left (settle conns) calls acc)) = map id (fst acc).
Proof.
  induction calls as [|c l IH]; intros acc; simpl; [reflexivity|].
  rewrite IH. apply settle_ids.
Qed.

Lemma runLevel_ids conns level prev q :
  map id (fst (fst (runLevel client conns level prev q))) = map id prev.
Proof.
  unfold runLevel. pose proof (launch_ids level q 0 prev) as H.
  destruct (launch client level 0 prev q) as [started calls]. simpl in *.
  rewrite settles_ids. exact H.
Qed.

Lemma processQueue_frame conns fuel : forall level st q,
  let r := processQueue client conns fuel level st q in
  map id (nodes (final r)) = map id (nodes st) /\
  connections (final r) = connections st /\
  globalInput (final r) = globalInput st /\
  connectionState (final r) = connectionState st /\
  alert r = None.
Proof.
  induction fuel as [|fuel IH]; intros level st q; destruct q as [|item rest];
    simpl; auto.
  pose proof (runLevel_ids conns level (nodes st) (item :: rest)) as H.
  destruct (runLevel client conns level (nodes st) (item :: rest))
    as [[prev nq] calls]. simpl in H.
  destruct nq as [|i2 nq]; simpl; auto.
  destruct (IH (S level) (setNodes (fun _ => prev) st) (i2 :: nq))
    as (H1 & H2 & H3 & H4 & H5).
  simpl in *. repeat split; congruence.
Qed.

Lemma runFlow_frame fuel st :
  let r := runFlow client fuel st in
  map id (nodes (final r)) = map id (nodes st) /\
  connections (final r) = connections st /\
  globalInput (final r) = globalInput st /\
  connectionState (final r) = connectionState st.
Proof.
  unfold runFlow. destruct (isRunning st); simpl; auto.
  assert (R : map id (map (fun n => withData n (resetStatus (data n))) (nodes st))
              = map id (nodes st)) by (rewrite map_map; reflexivity).
  destruct (_ && _); simpl; auto.
  match goal with |- context [processQueue client ?c fuel 0 ?s ?q] =>
    destruct (processQueue_frame c fuel 0 s q) as (H1 & H2 & H3 & H4 & _) end.
  simpl in *. repeat split; congruence.
Qed.

End EngineFrame.

(** ** Reset *)

Lemma handleReset_spec st :
  isRunning (handleReset st) = false /\
  map id (nodes (handleReset st)) = map id (nodes st) /\
  (forall n, In n (nodes (handleReset st)) ->
             status (data n) = idle /\ input (data n) = "" /\ output (data n) = "") /\
  map (fun n => errorMessage (data n)) (nodes (handleReset st))
  = map (fun n => errorMessage (data n)) (nodes st) /\
  handleReset (handleReset st) = handleReset st.
Proof.
  unfold handleReset. simpl. repeat split.
  - rewrite map_map. reflexivity.
  - apply in_map_iff in H. destruct H as [m [E _]]. now subst.
  - apply in_map_iff in H. destruct H as [m [E _]]. now subst.
  - apply in_map_iff in H. destruct H as [m [E _]]. now subst.
  - rewrite map_map. reflexivity.
  - unfold setIsRunning, setNodes. simpl. f_equal. rewrite map_map. reflexivity.
Qed.


(** ** Node identifiers *)

Lemma to_uint_nonnil (n : N) : N.to_uint n <> Decimal.Nil.
Proof.
  destruct n; simpl; [discriminate | apply DecimalPos.Unsigned.to_uint_nonnil].
Qed.

Lemma decimal_inj (a b : N) : decimal a = decimal b -> a = b.
Proof.
  unfold decimal. intros E.
  pose proof (NilZero.usu _ (to_uint_nonnil a)) as Ha.
  pose proof (NilZero.usu _ (to_uint_nonnil b)) as Hb.
  rewrite E in Ha. rewrite Ha in Hb. injection Hb as Hb.
  now apply DecimalN.Unsigned.to_uint_inj.
Qed.

Lemma nodeIdOf_inj (a b : N) : nodeIdOf a = nodeIdOf b -> a = b.
Proof.
  unfold nodeIdOf. simpl. intros E. injection E as E. now apply decimal_inj.
Qed.

(** Dropping nodes keeps their ids distinct. *)
Lemma filter_ids_distinct (keep : AgentNode -> bool) (ns : list AgentNode) :
  NoDup (map id ns) -> NoDup (map id (filter keep ns)).
Proof.
  induction ns as [|n ns IH]; simpl; intros H; [constructor|].
  apply NoDup_cons_iff in H. destruct H as [Hn Hns].
  destruct (keep n); simpl; [|auto].
  apply NoDup_cons; [|auto].
  intros Hin. apply Hn. apply in_map_iff in Hin. destruct Hin as [m [E Hm]].
  apply filter_In in Hm. rewrite <- E. apply in_map. tauto.
Qed.

(** Every operation but [addNode] keeps the identifiers or drops some. *)
Lemma applyOp_ids st op :
  match op with
  | OpAddNode now => map id (nodes (applyOp st op)) = map id (nodes st) ++ [nodeIdOf now]
  | OpDeleteNode i =>
      map id (nodes (applyOp st op)) = map id (filter (fun n => negb (id n =? i)) (nodes st))
  | _ => map id (nodes (applyOp st op)) = map id (nodes st)
  end.
Proof.
  destruct op; simpl.
  - rewrite map_app. reflexivity.
  - reflexivity.
  - apply mapNode_ids.
  - unfold addConnection, handleEndConnection, handleStartConnection. simpl.
    destruct (truthy a); simpl; [|reflexivity].
    destruct (a =? b); simpl; [reflexivity|].
    destruct (existsb _ _); reflexivity.
  - rewrite map_map. reflexivity.
  - apply runFlow_frame.
Qed.

Lemma applyOps_distinct ops : forall st seen,
  NoDup (seen ++ clockReadings ops) ->
  NoDup (map id (nodes st)) ->
  incl (map id (nodes st)) (map nodeIdOf seen) ->
  NoDup (map id (nodes (applyOps ops st))).
Proof.
  induction ops as [|op ops IH]; intros st seen Hclock Hnd Hincl; simpl;
    [exact Hnd|].
  pose proof (applyOp_ids st op) as Hop.
  destruct op as [now|i|i p|a b now| |client fuel];
    try (apply (IH _ seen); [exact Hclock | rewrite Hop; exact Hnd
                             | rewrite Hop; exact Hincl]).
  - (* addNode *)
    simpl in Hclock.
    apply (IH _ (seen ++ [now])).
    + rewrite <- app_assoc. exact Hclock.
    + rewrite Hop. apply NoDup_app; [exact Hnd | repeat constructor; intros [] |].
      intros s Hs [E|[]]. subst s.
      apply Hincl in Hs. apply in_map_iff in Hs. destruct Hs as [t [E Ht]].
      apply nodeIdOf_inj in E. subst t.
      apply NoDup_remove_2 in Hclock. apply Hclock. apply in_or_app. now left.
    + rewrite Hop, map_app. apply incl_app.
      * apply incl_appl. exact Hincl.
      * apply incl_appr. apply incl_refl.
  - (* deleteNode *)
    apply (IH _ seen); [exact Hclock | rewrite Hop; now apply filter_ids_distinct |].
    rewrite Hop. intros s Hs. apply Hincl.
    apply in_map_iff in Hs. destruct Hs as [n [E Hn]].
    apply filter_In in Hn. rewrite <- E. apply in_map. tauto.
Qed.

(** C9, as the code has it.  [addNode] names the new node after the clock:
    ["node-"] followed by the reading of [Date.now()].  After every
    sequence of store operations (runs included) applied to the initial
    store, node ids are pairwise distinct provided the readings of the
    [addNode] calls are pairwise distinct and none is 1, the number in the
    initial node's id; and [addNode] on any store appends one node, whose
    id is the one made from the reading of that call and from no other
    reading. *)
Theorem node_ids_distinct (ops : list StoreOp) :
  NoDup (1%N :: clockReadings ops) ->
  NoDup (map id (nodes (applyOps ops initialApp))) /\
  (forall st now,
      exists m, nodes (addNode now st) = nodes st ++ [m] /\
                forall t, id m = nodeIdOf t <-> t = now).
Proof.
  intros H. split.
  - apply (applyOps_distinct ops initialApp [1%N]).
    + exact H.
    + simpl. repeat constructor. intros [].
    + simpl. apply incl_refl.
  - intros st now. eexists. split; [reflexivity|]. simpl. intros t. split.
    + intros E. symmetry. now apply nodeIdOf_inj.
    + intros E. now subst.
Qed.

Lemma node_ids_distinct_witness :
  NoDup (map id (nodes (applyOps
    [OpAddNode 5; OpAddConnection "node-1" "node-5" 6; OpAddNode 7;
     OpRun echoClient 3; OpDeleteNode "node-5"; OpReset; OpAddNode 9]
    initialApp))).
Proof.
  apply node_ids_distinct.
  simpl. repeat constructor; simpl; intuition discriminate.
Defined.

(** C9 fails as stated: two [addNode] calls that read the same clock value
    give two nodes with the same id. *)
Lemma node_ids_clash :
  ~ NoDup (map id (nodes (applyOps [OpAddNode 5; OpAddNode 5] initialApp))).
Proof.
  simpl. intros H. inversion H as [|? ? _ H1]; subst.
  inversion H1 as [|? ? H2 _]; subst. apply H2. left. reflexivity.
Qed.

(** ** The calls of a level *)

Lemma find_isNode prev i :
  match find (fun n => id n =? i) prev with
  | Some n => isNode prev i = true /\ In n prev /\ id n = i
  | None => isNode prev i = false
  end.
Proof.
  unfold isNode. induction prev as [|m l IH]; simpl; [reflexivity|].
  rewrite (String.eqb_sym i (id m)).
  destruct (String.eqb_spec (id m) i) as [e|ne]; simpl.
  - auto.
  - destruct (find _ l); [|exact IH]. intuition.
Qed.


Lemma isNode_In prev i : isNode prev i = true <-> In i (map id prev).
Proof. apply existsb_eqb_In. Qed.

Section Calls.

Variable client : Client.




End Calls.

Lemma filter_all {A : Type} (p : A -> bool) (l : list A) :
  (forall a, In a l -> p a = true) -> filter p l = l.
Proof.
  induction l as [|a l IH]; simpl; intros H; [reflexivity|].
  rewrite (H a (or_introl eq_refl)). f_equal. apply IH. auto.
Qed.



(** ** A level, node by node *)







Section Pointwise.

Variable client : Client.



End Pointwise.

(** ** Completion order *)














Lemma Forall2_map_same {A B : Type} (R : B -> B -> Prop) (f g : A -> B) l :
  (forall a, In a l -> R (f a) (g a)) -> Forall2 R (map f l) (map g l).
Proof.
  induction l as [|a l IH]; simpl; intros H; constructor; auto.
Qed.

Lemma Forall2_map_r {A : Type} (R : A -> A -> Prop) (g : A -> A) l :
  (forall a, In a l -> R a (g a)) -> Forall2 R l (map g l).
Proof.
  intros H. rewrite <- (map_id l) at 1. now apply Forall2_map_same.
Qed.

(** ** A failed call *)



(** ** Fan-in *)


Lemma find_over_app {A : Type} (p : A -> bool) (l1 l2 : list A) :
  find p (l1 ++ l2) = match find p l1 with Some a => Some a | None => find p l2 end.
Proof.
  induction l1 as [|a l IH]; simpl; [reflexivity|].
  destruct (p a); [reflexivity | exact IH].
Qed.

Lemma find_filter_implied {A : Type} (p q : A -> bool) (l : list A) :
  (forall a, p a = true -> q a = true) -> find p (filter q l) = find p l.
Proof.
  intros H. induction l as [|a l IH]; simpl; [reflexivity|].
  destruct (p a) eqn:Pa.
  - rewrite (H a Pa). simpl. now rewrite Pa.
  - destruct (q a); simpl; [now rewrite Pa | exact IH].
Qed.


Lemma twice_sym {A : Type} (a b : A) l : twice a b l -> twice b a l.
Proof. intros (p & m & s & [H|H]); exists p, m, s; auto. Qed.









(** ** Walks in the connection graph *)






(** ** Invariants of the levels *)

Section Levels.

Variable client : Client.
Variable conns : list Connection.

(** A property of node ids, indexed by the level, that connections
    carry to the next level. *)
Variable P : nat -> string -> Prop.
Hypothesis P_edge : forall k a b, P k a -> edge conns a b -> P (S k) b.



End Levels.

(** ** What a run leaves in the nodes *)


Lemma Forall2_same {A : Type} (R : A -> A -> Prop) l :
  (forall a, R a a) -> Forall2 R l l.
Proof. intros H. induction l; constructor; auto. Qed.

Section Settled.

Variable client : Client.
Variable conns : list Connection.





End Settled.

(** ** Acyclic graphs *)








(** * Further properties of the engine *)

(** ** The shape of a level *)







(** ** What a run writes and what it leaves *)














(** ** Runs depend on the graph only *)








Section Twins.

Variable client : Client.




End Twins.

Lemma filter_twins (p : AgentNode -> bool) l : forall l',
  (forall a b, twins a b -> p b = p a) ->
  Forall2 twins l l' -> Forall2 twins (filter p l) (filter p l').
Proof.
  induction l as [|a l IH]; intros l' H F; inversion F as [|? b ? l2 T F2]; subst;
    simpl; [constructor|].
  rewrite (H a b T). destruct (p a); [constructor|]; auto.
Qed.



(** ** Graphs without connections, graphs with a loop *)




Lemma isNode_own prev n : In n prev -> isNode prev (id n) = true.
Proof. intros H. apply isNode_In. now apply in_map. Qed.








Section Loop.

Variable client : Client.
Variable conns : list Connection.

(** A set of node ids in which every node has a connection to a node of
    the set. *)
Variable inLoop : string -> Prop.
Variable ids : list string.
Hypothesis loop_nodes : forall i, inLoop i -> In i ids.
Hypothesis loop_next :
  forall i, inLoop i -> exists c, In c conns /\ source c = i /\ inLoop (target c).
Hypothesis always_fulfilled :
  forall level slot i p, exists out, outcome (client level slot i p) = Fulfilled out.


End Loop.



(** ** When a run is refused, aborted or still going *)

(** X7. The only alert of [runFlow] is the no-start-node alert, and it is
    raised exactly when the run is accepted (no run in progress), the
    graph has a node and none of its nodes is a root; then no call is
    made. *)
Theorem alert_iff_no_root (client : Client) (fuel : nat) (st : App) :
  let r := runFlow client fuel st in
  (alert r = None \/ alert r = Some noStartNodeMessage) /\
  (alert r = Some noStartNodeMessage <->
   isRunning st = false /\ nodes st <> [] /\ getRootNodes st = []) /\
  (alert r <> None -> levels r = [] /\ finished r = true).
Proof.
  cbv zeta. unfold runFlow.
  destruct (isRunning st).
  { simpl. split; [auto|]. split; [|congruence]. split; [discriminate|].
    intros (H & _). discriminate. }
  destruct (getRootNodes st) as [|r0 rs] eqn:E; cbn [List.length Nat.eqb andb].
  - destruct (nodes st) as [|n0 ns] eqn:En; cbn [List.length Nat.ltb Nat.leb].
    + match goal with |- context [processQueue client ?c fuel 0 ?s ?q] =>
        destruct (processQueue_frame client c fuel 0 s q) as (_ & _ & _ & _ & A) end.
      cbv zeta in A. cbn [map] in *. rewrite A.
      split; [auto|]. split; [|congruence]. split; [discriminate|].
      intros (_ & H & _). congruence.
    + simpl. split; [auto|]. split; [|auto]. split; [|reflexivity].
      intros _. split; [reflexivity|]. split; [discriminate | reflexivity].
  - match goal with |- context [processQueue client ?c fuel 0 ?s ?q] =>
      destruct (processQueue_frame client c fuel 0 s q) as (_ & _ & _ & _ & A) end.
    cbv zeta in A. rewrite A.
    split; [auto|]. split; [|congruence]. split; [discriminate|].
    intros (_ & _ & H). discriminate.
Qed.



(** ** The generation service *)

Lemma orDefault_truthy o d : truthy d = true -> truthy (orDefault o d) = true.
Proof.
  intros H. unfold orDefault. destruct o as [s|]; [|exact H].
  destruct (truthy s) eqn:E; [exact E | exact H].
Qed.

Lemma truthy_nonempty s : truthy s = true <-> s <> "".
Proof.
  unfold truthy. rewrite negb_true_iff. apply String.eqb_neq.
Qed.

(** X10. [generateAgentResponse] never resolves to an empty text and
    never rejects with an empty message.  It resolves only when an API
    key is set and the SDK call, made with the model [gemini-2.5-flash],
    the input as contents and the persona as system instruction, has
    returned; without an API key it rejects with the missing-key message
    whatever the SDK would do. *)
Theorem generateAgentResponse_never_empty (apiKey : string)
    (sdk : string -> string -> string -> SdkResult) (i p : string) :
  match generateAgentResponse apiKey sdk i p with
  | Fulfilled text =>
      text <> "" /\ apiKey <> "" /\
      exists t, sdk "gemini-2.5-flash" i p = Returned t /\
                text = orDefault t "No response generated."
  | Failed message =>
      message <> "" /\
      (apiKey = "" /\ message = missingKeyMessage \/
       apiKey <> "" /\
       exists m, sdk "gemini-2.5-flash" i p = Threw m /\
                 message = orDefault m "Failed to generate content")
  end /\
  (apiKey = "" ->
   forall sdk', generateAgentResponse apiKey sdk' i p = Failed missingKeyMessage).
Proof.
  split; [|intros ->; reflexivity].
  unfold generateAgentResponse.
  destruct (truthy apiKey) eqn:K; cbn [negb].
  - apply truthy_nonempty in K.
    destruct (sdk "gemini-2.5-flash" i p) as [t|m] eqn:E.
    + split; [apply truthy_nonempty, orDefault_truthy; reflexivity|].
      split; [exact K|]. now exists t.
    + split; [apply truthy_nonempty, orDefault_truthy; reflexivity|].
      right. split; [exact K|]. now exists m.
  - split; [discriminate|]. left. split; [|reflexivity].
    unfold truthy in K. apply negb_false_iff in K. now apply String.eqb_eq.
Qed.







(** * Further properties of the Graph Store *)

(** ** Connections stay simple *)

Lemma linked_endpoints a b l :
  linked a b l = false -> ~ In (a, b) (map endpoints l).
Proof.
  intros H Hin. apply in_map_iff in Hin. destruct Hin as [c [E Hc]].
  unfold endpoints in E. injection E as E1 E2.
  assert (X : linked a b l = true).
  { apply existsb_between. exists c. auto. }
  congruence.
Qed.

(** Dropping connections keeps their endpoint pairs distinct. *)
Lemma filter_endpoints_distinct (keep : Connection -> bool) (cs : list Connection) :
  NoDup (map endpoints cs) -> NoDup (map endpoints (filter keep cs)).
Proof.
  induction cs as [|c cs IH]; simpl; intros H; [constructor|].
  apply NoDup_cons_iff in H. destruct H as [Hc Hcs].
  destruct (keep c); simpl; [|auto].
  apply NoDup_cons; [|auto].
  intros Hin. apply Hc. apply in_map_iff in Hin. destruct Hin as [d [E Hd]].
  apply filter_In in Hd. rewrite <- E. apply (in_map endpoints). tauto.
Qed.

Lemma applyOp_simple st op : simpleConnections st -> simpleConnections (applyOp st op).
Proof.
  intros [Hnd Hne]. unfold simpleConnections.
  destruct op as [now|i|i p|a b now| |client fuel]; cbn [applyOp].
  - split; assumption.
  - (* deleteNode *)
    simpl. split; [now apply filter_endpoints_distinct|].
    intros c Hc. apply filter_In in Hc. apply Hne. tauto.
  - split; assumption.
  - (* addConnection *)
    rewrite addConnection_connections.
    destruct (truthy a) eqn:Ta; cbn [andb]; [|split; assumption].
    destruct (String.eqb_spec a b) as [e|ne]; cbn [negb andb]; [split; assumption|].
    destruct (linked a b (connections st)) eqn:L; cbn [negb]; [split; assumption|].
    split.
    + rewrite map_app. apply NoDup_app; [exact Hnd | repeat constructor; intros [] |].
      intros x Hx [<-|[]]. revert Hx. now apply linked_endpoints.
    + intros c Hc. apply in_app_or in Hc. destruct Hc as [Hc|[<-|[]]]; [auto|].
      simpl. split; [exact ne | now apply truthy_nonempty].
  - split; assumption.
  - (* runFlow *)
    destruct (runFlow_frame client fuel st) as (_ & -> & _). split; assumption.
Qed.

Lemma applyOps_simple ops : forall st,
  simpleConnections st -> simpleConnections (applyOps ops st).
Proof.
  induction ops as [|op ops IH]; intros st H; simpl; [exact H|].
  apply IH. now apply applyOp_simple.
Qed.

(** X11. After every sequence of store operations (runs included) applied
    to the initial store, no two connections have the same source and
    target, no connection joins a node to itself, and none starts from
    the empty id; every single operation keeps these three facts. *)
Theorem connections_stay_simple (ops : list StoreOp) :
  simpleConnections (applyOps ops initialApp) /\
  (forall st op, simpleConnections st -> simpleConnections (applyOp st op)).
Proof.
  split; [|apply applyOp_simple].
  apply applyOps_simple. split; [constructor | intros c []].
Qed.

(** ** No dangling connection *)

Lemma applyOp_conns_kept st op :
  match op with
  | OpDeleteNode _ | OpAddConnection _ _ _ => True
  | _ => connections (applyOp st op) = connections st
  end.
Proof.
  destruct op; cbn [applyOp]; try exact I; try reflexivity.
  apply runFlow_frame.
Qed.

Lemma applyOp_wellFormed st op :
  wellFormed st ->
  match op with
  | OpAddConnection a b _ => In a (map id (nodes st)) /\ In b (map id (nodes st))
  | _ => True
  end ->
  wellFormed (applyOp st op).
Proof.
  intros W Hop. unfold wellFormed in *.
  pose proof (applyOp_ids st op) as Hids.
  pose proof (applyOp_conns_kept st op) as Hcs.
  destruct op as [now|i|i p|a b now| |client fuel].
  - rewrite Hids, Hcs. intros c Hc. destruct (W c Hc).
    split; apply in_or_app; now left.
  - (* deleteNode *)
    rewrite Hids. cbn [applyOp]. simpl. intros c Hc.
    apply filter_In in Hc. destruct Hc as [Hc Hk].
    apply andb_true_iff in Hk. destruct Hk as [Hs Ht].
    apply negb_true_iff in Hs, Ht.
    destruct (W c Hc) as [Ws Wt].
    apply in_map_iff in Ws, Wt. destruct Ws as [n [En Hn]]. destruct Wt as [m [Em Hm]].
    split; apply in_map_iff; [exists n | exists m]; split; auto;
      apply filter_In; split; auto; apply negb_true_iff; congruence.
  - rewrite Hids, Hcs. exact W.
  - (* addConnection *)
    rewrite Hids. cbn [applyOp]. rewrite addConnection_connections.
    destruct (_ && _); [|exact W].
    intros c Hc. apply in_app_or in Hc. destruct Hc as [Hc|[<-|[]]]; [auto|].
    exact Hop.
  - rewrite Hids, Hcs. exact W.
  - rewrite Hids, Hcs. exact W.
Qed.

(** X12. After every sequence of store operations (runs included) applied
    to the initial store, every connection joins two nodes of the store,
    provided each connection was drawn between nodes that existed when
    it was drawn: [deleteNode] takes the connections of the node with
    it, and nothing else removes a node. *)
Theorem no_dangling_connection (ops : list StoreOp) :
  drawnBetweenNodes ops initialApp ->
  wellFormed (applyOps ops initialApp).
Proof.
  assert (G : forall ops st, wellFormed st -> drawnBetweenNodes ops st ->
                             wellFormed (applyOps ops st)).
  { clear ops. induction ops as [|op ops IH]; intros st W D; simpl; [exact W|].
    destruct D as [D1 D2]. apply IH; [|exact D2].
    apply applyOp_wellFormed; [exact W|]. destruct op; auto. }
  apply G. intros c [].
Qed.

Lemma no_dangling_connection_witness :
  wellFormed (applyOps
    [OpAddNode 5; OpAddConnection "node-1" "node-5" 6; OpAddNode 7;
     OpAddConnection "node-5" "node-7" 8; OpRun echoClient 3;
     OpDeleteNode "node-5"; OpReset]
    initialApp).
Proof.
  apply no_dangling_connection. simpl. intuition.
Defined.

(** ** Deleting nodes *)

Lemma filter_comm {A : Type} (p q : A -> bool) (l : list A) :
  filter p (filter q l) = filter q (filter p l).
Proof.
  induction l as [|a l IH]; simpl; [reflexivity|].
  destruct (p a) eqn:Pa; destruct (q a) eqn:Qa; simpl; rewrite ?Pa, ?Qa, IH;
    reflexivity.
Qed.

Lemma filter_twice {A : Type} (p : A -> bool) (l : list A) :
  filter p (filter p l) = filter p l.
Proof.
  apply filter_all. intros a Ha. now apply filter_In in Ha.
Qed.

(** X13. [deleteNode i] leaves no node with id [i] and no connection
    from or to [i], and keeps every other node and connection in order.
    Deleting twice is deleting once, and two deletions give the same
    store in either order. *)
Theorem deleteNode_cascades (i j : string) (st : App) :
  (forall n, In n (nodes (deleteNode i st)) <-> In n (nodes st) /\ id n <> i) /\
  (forall c, In c (connections (deleteNode i st)) <->
             In c (connections st) /\ source c <> i /\ target c <> i) /\
  deleteNode i (deleteNode i st) = deleteNode i st /\
  deleteNode i (deleteNode j st) = deleteNode j (deleteNode i st).
Proof.
  split; [|split; [|split]].
  - intros n. simpl. rewrite filter_In, negb_true_iff, String.eqb_neq. tauto.
  - intros c. simpl.
    rewrite filter_In, andb_true_iff, !negb_true_iff, !String.eqb_neq. tauto.
  - unfold deleteNode, setConnections, setNodes. simpl.
    now rewrite !filter_twice.
  - unfold deleteNode, setConnections, setNodes. simpl. f_equal; apply filter_comm.
Qed.

Lemma filter_none {A : Type} (p : A -> bool) (l : list A) :
  (forall a, In a l -> p a = false) -> filter p l = [].
Proof.
  induction l as [|a l IH]; simpl; intros H; [reflexivity|].
  rewrite (H a (or_introl eq_refl)). apply IH. auto.
Qed.

(** X14. On a store without dangling connection, adding a node under an
    id that no node has yet and deleting that id again gives back the
    store, unchanged in every field. *)
Theorem addNode_deleteNode_round_trip (now : N) (st : App) :
  wellFormed st ->
  ~ In (nodeIdOf now) (map id (nodes st)) ->
  deleteNode (nodeIdOf now) (addNode now st) = st.
Proof.
  intros W Hfresh. destruct st as [ns cs gi cstate run].
  unfold deleteNode, addNode, setConnections, setNodes. simpl in *. f_equal.
  - rewrite filter_app. simpl. rewrite String.eqb_refl. simpl. rewrite app_nil_r.
    apply filter_all. intros n Hn. apply negb_true_iff, String.eqb_neq.
    intros E. apply Hfresh. rewrite <- E. now apply in_map.
  - apply filter_all. intros c Hc. destruct (W c Hc) as [Ws Wt].
    apply andb_true_iff. split; apply negb_true_iff, String.eqb_neq;
      intros E; apply Hfresh; now rewrite <- E.
Qed.

Lemma addNode_deleteNode_round_trip_witness :
  deleteNode (nodeIdOf 9) (addNode 9 chainAB) = chainAB.
Proof.
  apply addNode_deleteNode_round_trip.
  - intros c [<-|[]]. simpl. auto.
  - simpl. intros [H|[H|[]]]; discriminate.
Defined.

(** ** Editing a node *)

Lemma spread_empty d : spread d emptyPartial = d.
Proof. destruct d. reflexivity. Qed.

Lemma spread_merge d p1 p2 :
  spread (spread d p1) p2 = spread d (mergePartial p1 p2).
Proof.
  unfold spread, mergePartial. simpl.
  destruct (p_label p2), (p_systemInstruction p2), (p_input p2), (p_output p2),
    (p_status p2), (p_errorMessage p2); reflexivity.
Qed.

Lemma mapNode_absent i f l : ~ In i (map id l) -> mapNode i f l = l.
Proof.
  intros H. unfold mapNode. rewrite <- (map_id l) at 2. apply map_ext_in.
  intros n Hn. destruct (String.eqb_spec (id n) i) as [e|ne]; [|reflexivity].
  exfalso. apply H. rewrite <- e. now apply in_map.
Qed.

(** X15. [updateNodeData i p] rewrites, in the nodes whose id is [i], the
    data fields that [p] carries and nothing else: ids, positions, the
    other nodes and the rest of the store are kept.  With an id that no
    node has, or with a partial that carries no field, the store is
    unchanged; two updates of [i] in a row are the single update with the
    second partial spread over the first. *)
Theorem updateNodeData_composes (i : string) (p1 p2 : PartialData) (st : App) :
  updateNodeData i p2 (updateNodeData i p1 st)
  = updateNodeData i (mergePartial p1 p2) st /\
  updateNodeData i emptyPartial st = st /\
  (~ In i (map id (nodes st)) -> updateNodeData i p1 st = st) /\
  Forall2 (fun n n' =>
             id n' = id n /\ position n' = position n /\
             (id n = i -> data n' = spread (data n) p1) /\
             (id n <> i -> n' = n))
          (nodes st) (nodes (updateNodeData i p1 st)) /\
  connections (updateNodeData i p1 st) = connections st.
Proof.
  split; [|split; [|split; [|split]]].
  - unfold updateNodeData, setNodes, mapNode. simpl. f_equal.
    rewrite map_map. apply map_ext. intros n.
    destruct (String.eqb_spec (id n) i) as [e|ne]; simpl.
    + rewrite e, String.eqb_refl. unfold withData. simpl. now rewrite spread_merge.
    + apply String.eqb_neq in ne. now rewrite ne.
  - destruct st as [ns cs gi cstate run]. unfold updateNodeData, setNodes. simpl.
    f_equal. unfold mapNode. rewrite <- (map_id ns) at 2. apply map_ext.
    intros n. destruct (_ =? _); [|reflexivity].
    rewrite spread_empty. now destruct n.
  - intros H. destruct st as [ns cs gi cstate run].
    unfold updateNodeData, setNodes. simpl in *. f_equal. now apply mapNode_absent.
  - simpl. unfold mapNode. apply Forall2_map_r. intros n _.
    destruct (String.eqb_spec (id n) i) as [e|ne]; simpl.
    + repeat split; auto. congruence.
    + repeat split; auto. congruence.
  - reflexivity.
Qed.

(** ** Roots after an edit of the graph *)

Lemma filter_twofold {A : Type} (p q : A -> bool) (l : list A) :
  filter q (filter p l) = filter (fun a => p a && q a) l.
Proof.
  induction l as [|a l IH]; simpl; [reflexivity|].
  destruct (p a); simpl; [destruct (q a)|]; now rewrite IH.
Qed.

(** X21. A node added under an id that no connection targets is a root
    of the new graph, the last one, and the roots before it are
    unchanged: the next run calls it in its first level. *)
Theorem added_node_is_root (now : N) (st : App) :
  ~ In (nodeIdOf now) (map target (connections st)) ->
  exists newNode,
    nodes (addNode now st) = nodes st ++ [newNode] /\
    id newNode = nodeIdOf now /\ status (data newNode) = idle /\
    getRootNodes (addNode now st) = getRootNodes st ++ [newNode].
Proof.
  intros H. eexists. split; [reflexivity|]. split; [reflexivity|].
  split; [reflexivity|].
  unfold getRootNodes, addNode, setNodes. cbn [nodes connections].
  rewrite filter_app. cbn [filter id].
  destruct (existsb _ _) eqn:E; [|reflexivity].
  apply existsb_eqb_In in E. contradiction.
Qed.

Lemma added_node_is_root_witness :
  map id (getRootNodes (addNode 9 chainAB)) = ["A"; "node-9"].
Proof.
  destruct (added_node_is_root 9 chainAB) as (n & _ & Hid & _ & Hr).
  - simpl. intros [H|[]]. discriminate.
  - rewrite Hr, map_app. simpl. now rewrite Hid.
Defined.

(** X22. After [addConnection a b] with [a] non-empty and different from
    [b], a connection from [a] to [b] exists and the roots are the
    former roots without the nodes of id [b], whether the connection was
    added or was already there. *)
Theorem addConnection_unroots_target (a b : string) (now : N) (st : App) :
  a <> "" -> a <> b ->
  linked a b (connections (addConnection a b now st)) = true /\
  getRootNodes (addConnection a b now st)
  = filter (fun n => negb (id n =? b)) (getRootNodes st).
Proof.
  intros Ha Hab.
  assert (N : nodes (addConnection a b now st) = nodes st).
  { unfold addConnection, handleEndConnection, handleStartConnection. simpl.
    destruct (truthy a); simpl; [|reflexivity].
    destruct (a =? b); simpl; [reflexivity|].
    destruct (existsb _ _); reflexivity. }
  unfold getRootNodes. rewrite N, addConnection_connections.
  apply truthy_nonempty in Ha. apply String.eqb_neq in Hab. rewrite Ha, Hab.
  cbn [negb andb].
  destruct (linked a b (connections st)) eqn:L; cbn [negb].
  - split; [exact L|].
    symmetry. apply filter_all.
    intros n Hn. apply filter_In in Hn. destruct Hn as [_ Hn].
    apply negb_true_iff. apply negb_true_iff in Hn.
    destruct (String.eqb_spec (id n) b) as [e|ne]; [|reflexivity].
    apply existsb_between in L. destruct L as (c & Hc & _ & Ht).
    assert (X : existsb (String.eqb (id n)) (map target (connections st)) = true).
    { apply existsb_eqb_In. rewrite e, <- Ht. now apply in_map. }
    congruence.
  - split; [apply linked_snoc|].
    rewrite map_app, filter_twofold. apply filter_ext. intros n.
    rewrite existsb_app. cbn [map target existsb].
    now rewrite orb_false_r, negb_orb.
Qed.

Lemma addConnection_unroots_target_witness :
  map id (getRootNodes (addConnection "C" "B" 4 threeNodes)) = ["A"; "C"].
Proof.
  destruct (addConnection_unroots_target "C" "B" 4 threeNodes) as [_ H].
  - discriminate.
  - discriminate.
  - rewrite H. reflexivity.
Defined.

(** * Further properties of the canvas handlers *)

(** ** Drawing a connection *)

Lemma handleEndConnection_idle b now st :
  isConnecting (connectionState st) = false ->
  connections (handleEndConnection b now st) = connections st /\
  connectionState (handleEndConnection b now st) = noConnection.
Proof.
  intros H. unfold handleEndConnection. rewrite H.
  destruct (sourceNodeId (connectionState st)); simpl; auto.
Qed.

(** X16. A drop on the node the drag started from is rejected by a plain
    return that skips the reset of the connection state: the store is
    exactly as after the start of the drag, still connecting from that
    node, so a later drop on another node [b] not yet linked still
    creates the connection.  After any other drop the drag is over and a
    further drop adds nothing. *)
Theorem self_drop_keeps_drag_pending (a b : string) (now now' : N) (st : App) :
  a <> "" ->
  addConnection a a now st = handleStartConnection a st /\
  (a <> b -> linked a b (connections st) = false ->
   connections (handleEndConnection b now' (addConnection a a now st))
   = connections st ++ [{| conn_id := ("c-" ++ decimal now')%string;
                           source := a; target := b |}]) /\
  (a <> b ->
   connectionState (addConnection a b now st) = noConnection /\
   forall c, connections (handleEndConnection c now' (addConnection a b now st))
             = connections (addConnection a b now st)).
Proof.
  intros Ha. apply truthy_nonempty in Ha.
  assert (Self : addConnection a a now st = handleStartConnection a st).
  { unfold addConnection, handleEndConnection. cbn [handleStartConnection
      setConnectionState connectionState sourceNodeId isConnecting].
    now rewrite Ha, String.eqb_refl. }
  split; [exact Self|]. split.
  - intros Hab L. rewrite Self.
    change (handleEndConnection b now' (handleStartConnection a st))
      with (addConnection a b now' st).
    rewrite addConnection_connections, Ha, L.
    apply String.eqb_neq in Hab. now rewrite Hab.
  - intros Hab.
    assert (C : connectionState (addConnection a b now st) = noConnection).
    { unfold addConnection, handleEndConnection. cbn [handleStartConnection
        setConnectionState connectionState sourceNodeId isConnecting].
      apply String.eqb_neq in Hab. rewrite Ha, Hab. cbn [andb].
      destruct (negb _); reflexivity. }
    split; [exact C|]. intros c. apply handleEndConnection_idle. now rewrite C.
Qed.

Lemma self_drop_keeps_drag_pending_witness :
  map endpoints
    (connections (handleEndConnection "C" 8 (addConnection "A" "A" 7 threeNodes)))
  = [("A", "C")].
Proof.
  destruct (self_drop_keeps_drag_pending "A" "C" 7 8 threeNodes) as (_ & H & _).
  - discriminate.
  - rewrite H; [reflexivity | discriminate | reflexivity].
Defined.

(** X17. Releasing the mouse on the canvas ends both the node drag and
    the connection drag and touches nothing else; a drop on a node's
    input handle after that, or whenever no connection drag is pending,
    adds no connection. *)
Theorem canvas_mouse_up_cancels (a b : string) (now : N) (cv : Canvas) :
  let up := handleCanvasMouseUp cv in
  dragState up = noDrag /\
  connectionState (store up) = noConnection /\
  nodes (store up) = nodes (store cv) /\
  connections (store up) = connections (store cv) /\
  connections
    (store (onApp (handleEndConnection b now)
                  (handleCanvasMouseUp (onApp (handleStartConnection a) cv))))
  = connections (store cv) /\
  (forall st, isConnecting (connectionState st) = false ->
              connections (handleEndConnection b now st) = connections st).
Proof.
  cbv zeta. repeat (split; [reflexivity|]).
  intros st H. exact (proj1 (handleEndConnection_idle b now st H)).
Qed.

(** ** Dragging a node *)

Lemma moveNode_frame i p l :
  Forall2 (fun n n' => id n' = id n /\ data n' = data n /\
                       (id n = i -> position n' = p) /\
                       (id n <> i -> n' = n))
          l (moveNode i p l).
Proof.
  unfold moveNode. apply Forall2_map_r. intros n _.
  destruct (String.eqb_spec (id n) i) as [e|ne]; simpl; repeat split; auto;
    congruence.
Qed.

(** X18. A mouse move over the canvas changes at most the position of
    the nodes whose id is the one being dragged: every node keeps its id
    and data, the other nodes, the connections, the global input and the
    running flag are untouched, and so is the drag state; a pending
    connection drag keeps its source (only its mouse position follows).
    Without a canvas rectangle, or when no drag is in progress (as after a mouse
    up), no node moves.  Pressing the mouse on a node never changes the
    store, and starts no drag when the node does not exist or the canvas
    rectangle is missing. *)
Theorem drag_moves_only_the_dragged_node (canvasRect : option Position)
    (clientX clientY : Z) (i : string) (cv : Canvas) :
  let moved := handleCanvasMouseMove canvasRect clientX clientY cv in
  Forall2 (fun n n' =>
             id n' = id n /\ data n' = data n /\
             (dragNodeId (dragState cv) <> Some (id n) -> n' = n))
          (nodes (store cv)) (nodes (store moved)) /\
  connections (store moved) = connections (store cv) /\
  globalInput (store moved) = globalInput (store cv) /\
  isRunning (store moved) = isRunning (store cv) /\
  dragState moved = dragState cv /\
  isConnecting (connectionState (store moved))
  = isConnecting (connectionState (store cv)) /\
  sourceNodeId (connectionState (store moved))
  = sourceNodeId (connectionState (store cv)) /\
  (canvasRect = None \/ isDragging (dragState cv) = false ->
   nodes (store moved) = nodes (store cv)) /\
  nodes (store (handleCanvasMouseMove canvasRect clientX clientY
                  (handleCanvasMouseUp cv)))
  = nodes (store cv) /\
  store (handleNodeMouseDown canvasRect clientX clientY i cv) = store cv /\
  (canvasRect = None \/ ~ In i (map id (nodes (store cv))) ->
   handleNodeMouseDown canvasRect clientX clientY i cv = cv).
Proof.
  cbv zeta.
  assert (Same : forall l : list AgentNode,
             Forall2 (fun n n' => id n' = id n /\ data n' = data n /\
                        (dragNodeId (dragState cv) <> Some (id n) -> n' = n)) l l).
  { intros l. apply Forall2_same. auto. }
  split; [|split; [|split; [|split; [|split; [|split; [|split; [|split;
    [|split; [|split]]]]]]]]].
  - unfold handleCanvasMouseMove. destruct canvasRect as [rect|]; [|apply Same].
    assert (X : forall cv1, nodes (store (if isConnecting (connectionState (store cv))
                 then onApp (fun st => setConnectionState
                        {| isConnecting := isConnecting (connectionState st);
                           sourceNodeId := sourceNodeId (connectionState st);
                           mousePos := {| pos_x := clientX - pos_x rect;
                                          pos_y := clientY - pos_y rect |} |} st) cv1
                 else cv1)) = nodes (store cv1)).
    { intros cv1. destruct (isConnecting _); reflexivity. }
    cbv zeta. rewrite X.
    destruct (dragNodeId (dragState cv)) as [d|]; [|apply Same].
    destruct (_ && _); [|apply Same].
    cbn [onApp store setNodes nodes].
    eapply Forall2_impl; [|apply moveNode_frame].
    intros n n' (I & D & _ & O). split; [exact I|]. split; [exact D|].
    intros H. apply O. congruence.
  - unfold handleCanvasMouseMove. destruct canvasRect; [|reflexivity]. cbv zeta.
    destruct (dragNodeId _); [destruct (_ && _)|]; destruct (isConnecting _);
      reflexivity.
  - unfold handleCanvasMouseMove. destruct canvasRect; [|reflexivity]. cbv zeta.
    destruct (dragNodeId _); [destruct (_ && _)|]; destruct (isConnecting _);
      reflexivity.
  - unfold handleCanvasMouseMove. destruct canvasRect; [|reflexivity]. cbv zeta.
    destruct (dragNodeId _); [destruct (_ && _)|]; destruct (isConnecting _);
      reflexivity.
  - unfold handleCanvasMouseMove. destruct canvasRect; [|reflexivity]. cbv zeta.
    destruct (dragNodeId _); [destruct (_ && _)|]; destruct (isConnecting _);
      reflexivity.
  - unfold handleCanvasMouseMove. destruct canvasRect; [|reflexivity]. cbv zeta.
    destruct (dragNodeId _); [destruct (_ && _)|];
      destruct (isConnecting (connectionState (store cv))) eqn:E;
      try reflexivity; simpl; now rewrite E.
  - unfold handleCanvasMouseMove. destruct canvasRect; [|reflexivity]. cbv zeta.
    destruct (dragNodeId _); [destruct (_ && _)|];
      destruct (isConnecting (connectionState (store cv))); reflexivity.
  - intros [->|H]; [reflexivity|].
    unfold handleCanvasMouseMove. destruct canvasRect; [|reflexivity]. cbv zeta.
    rewrite H. destruct (dragNodeId _); destruct (isConnecting _); reflexivity.
  - unfold handleCanvasMouseMove. destruct canvasRect; reflexivity.
  - unfold handleNodeMouseDown. destruct (find _ _); [|reflexivity].
    destruct canvasRect; reflexivity.
  - intros H. unfold handleNodeMouseDown.
    pose proof (find_isNode (nodes (store cv)) i) as F.
    destruct (find _ _) as [n|]; [|reflexivity].
    destruct H as [->|H]; [reflexivity|].
    exfalso. apply H. apply isNode_In. apply F.
Qed.

(** ** Where a node is drawn *)

Lemma find_absent i (l : list AgentNode) :
  ~ In i (map id l) -> find (fun n => id n =? i) l = None.
Proof.
  intros H. pose proof (find_isNode l i) as F.
  destruct (find _ l) as [n|]; [|reflexivity].
  exfalso. apply H. apply isNode_In. apply F.
Qed.

Lemma find_deleted i (l : list AgentNode) :
  find (fun n => id n =? i) (filter (fun n => negb (id n =? i)) l) = None.
Proof.
  apply find_absent. intros H. apply in_map_iff in H. destruct H as [n [E Hn]].
  apply filter_In in Hn. destruct Hn as [_ Hn]. rewrite E, String.eqb_refl in Hn.
  discriminate.
Qed.

Lemma find_other_deleted i j (l : list AgentNode) :
  j <> i ->
  find (fun n => id n =? j) (filter (fun n => negb (id n =? i)) l)
  = find (fun n => id n =? j) l.
Proof.
  intros H. apply find_filter_implied. intros n E. apply String.eqb_eq in E.
  apply negb_true_iff, String.eqb_neq. congruence.
Qed.

Lemma find_present_app i (l l' : list AgentNode) :
  In i (map id l) ->
  find (fun n => id n =? i) (l ++ l') = find (fun n => id n =? i) l.
Proof.
  intros H. rewrite find_over_app.
  pose proof (find_isNode l i) as F. apply isNode_In in H.
  destruct (find _ l); [reflexivity | congruence].
Qed.

(** X19. The three position lookups used to draw the connection lines
    give the origin for an id that no node has, hence for the id of a
    node just deleted; deleting a node does not change the lookups of
    the other ids, and adding a node does not change the lookup of any id
    that a node already has, even if the new node takes the same id. *)
Theorem position_lookups (i j : string) (now : N) (st : App) :
  (~ In i (map id (nodes st)) ->
   getNodeCenter i st = origin /\ getInputPos i st = origin /\
   getOutputPos i st = origin) /\
  (getNodeCenter i (deleteNode i st) = origin /\
   getInputPos i (deleteNode i st) = origin /\
   getOutputPos i (deleteNode i st) = origin) /\
  (j <> i ->
   getNodeCenter j (deleteNode i st) = getNodeCenter j st /\
   getInputPos j (deleteNode i st) = getInputPos j st /\
   getOutputPos j (deleteNode i st) = getOutputPos j st) /\
  (In i (map id (nodes st)) ->
   getNodeCenter i (addNode now st) = getNodeCenter i st /\
   getInputPos i (addNode now st) = getInputPos i st /\
   getOutputPos i (addNode now st) = getOutputPos i st).
Proof.
  unfold getNodeCenter, getInputPos, getOutputPos.
  split; [|split; [|split]].
  - intros H. now rewrite (find_absent i (nodes st) H).
  - cbn [deleteNode setConnections setNodes nodes]. now rewrite find_deleted.
  - intros H. cbn [deleteNode setConnections setNodes nodes].
    now rewrite (find_other_deleted i j (nodes st) H).
  - intros H. cbn [addNode setNodes nodes]. now rewrite (find_present_app i _ _ H).
Qed.

Lemma position_lookups_witness :
  getOutputPos "Z" chainAB = origin /\
  getInputPos "B" (deleteNode "A" chainAB) = getInputPos "B" chainAB /\
  getNodeCenter "A" (addNode 3 chainAB) = getNodeCenter "A" chainAB.
Proof.
  destruct (position_lookups "Z" "B" 3 chainAB) as (H1 & _).
  destruct (position_lookups "A" "B" 3 chainAB) as (_ & _ & H3 & H4).
  split; [apply H1; simpl; intros [H|[H|[]]]; discriminate|].
  split; [apply H3; discriminate | apply H4; simpl; auto].
Defined.

(** ** Reset *)

(** X20. [handleReset] keeps the graph: the nodes with their ids,
    positions, labels and personas, the connections, the global input
    and the pending connection drag.  It puts every node to [idle] with
    empty input and output, so that no card displays a last-run block or
    an error box any more; it clears the running flag, and resetting
    twice is resetting once. *)
Theorem handleReset_keeps_graph_hides_last_run (st : App) :
  Forall2 sameNode (nodes st) (nodes (handleReset st)) /\
  connections (handleReset st) = connections st /\
  globalInput (handleReset st) = globalInput st /\
  connectionState (handleReset st) = connectionState st /\
  isRunning (handleReset st) = false /\
  Forall (fun n => status (data n) = idle /\
                   showsLastRun (data n) = false /\
                   showsError (data n) = false)
         (nodes (handleReset st)) /\
  handleReset (handleReset st) = handleReset st.
Proof.
  split; [|split; [|split; [|split; [|split; [|split]]]]]; try reflexivity.
  - simpl. apply Forall2_map_r. intros n _. unfold sameNode. simpl. auto.
  - simpl. apply Forall_forall. intros n Hn. apply in_map_iff in Hn.
    destruct Hn as [m [<- _]]. auto.
  - unfold handleReset, setIsRunning, setNodes. simpl. f_equal.
    rewrite map_map. reflexivity.
Qed.

(** * Runs in which every call is fulfilled *)



Section Fulfilled.

Variable client : Client.
Variable conns : list Connection.
Variable ids : list string.
Hypothesis always_fulfilled :
  forall level slot i p, exists out, outcome (client level slot i p) = Fulfilled out.


End Fulfilled.



(** * Error messages *)









(** * The branch that should not happen *)


